(** * sync_issues.py: mirroring the open issues of an upstream repository
      into a fork

    The script is a straight line of remote calls followed by one [for]
    loop.  It is embedded here as a program in a small monad that threads
    the state of the outside world (the two repositories and the standard
    output), stops at the first exception, and records every remote call
    together with its answer.  The GitHub client is an interface: the
    theorems hold for every implementation of it, and an in-memory
    implementation is used to run the script on concrete repositories. *)

From Stdlib Require Import String Ascii List Bool Arith Lia.
Import ListNotations.
Open Scope string_scope.

(** ** Data, as the script reads it *)

(** [github.Label.Label]: the script reads [l.name] only. *)
Record Label : Type := { name : string }.

(** [github.Issue.Issue]: the script reads [title], [body] (which GitHub
    leaves [None] for an issue without description) and [html_url].  The
    state and the label names are what the listing filters look at. *)
Record Issue : Type := {
  title : string;
  body : option string;
  html_url : string;
  issue_state : string;
  issue_labels : list string
}.

(** [github.Repository.Repository], identified by its full name. *)
Record Repository : Type := { full_name : string }.

(** What a remote call may raise. *)
Inductive exn : Type :=
| BadCredentialsException
| UnknownObjectException
| RateLimitExceededException
| GithubException (status : nat)
| ConnectionError.

(** ** The outside world *)

(** One entry per call that leaves the process, with its answer. *)
Inductive Event : Type :=
| EvGetRepo (full_name_or_id : string) (r : exn + Repository)
| EvGetIssues (repo : Repository) (state : string)
    (labels : option (list string)) (r : exn + list Issue)
| EvGetLabels (repo : Repository) (r : exn + list Label)
| EvCreateIssue (repo : Repository) (title body : string)
    (labels : list string) (r : exn + Issue)
| EvPrint (line : string) (r : exn + unit).

(** The collaborator: PyGithub's client and the standard output, acting on
    a world of type [W].  [labels = None] stands for an omitted keyword
    argument. *)
Class GitHub (W : Type) : Type := {
  gh_get_repo : string -> W -> (exn + Repository) * W;
  repo_get_issues :
    Repository -> string -> option (list string) -> W -> (exn + list Issue) * W;
  repo_get_labels : Repository -> W -> (exn + list Label) * W;
  repo_create_issue :
    Repository -> string -> string -> list string -> W -> (exn + Issue) * W;
  sys_print : string -> W -> (exn + unit) * W
}.

(** What a run leaves behind: the calls made, the value or the exception
    that ended it, and the world after it. *)
Record Outcome (W A : Type) : Type := {
  trace : list Event;
  result : exn + A;
  world : W
}.
Arguments trace {W A} _.
Arguments result {W A} _.
Arguments world {W A} _.

Definition M (W A : Type) : Type := W -> Outcome W A.

Definition ret {W A} (a : A) : M W A :=
  fun w => {| trace := []; result := inr a; world := w |}.

(** Sequencing: an exception in the first part skips the second. *)
Definition bind {W A B} (m : M W A) (k : A -> M W B) : M W B :=
  fun w =>
    let o := m w in
    match result o with
    | inl e => {| trace := trace o; result := inl e; world := world o |}
    | inr a =>
        let o' := k a (world o) in
        {| trace := trace o ++ trace o'; result := result o'; world := world o' |}
    end.

Notation "x <- m ;; k" := (bind m (fun x => k))
  (at level 61, m at next level, right associativity).
Notation "m ;;; k" := (bind m (fun _ => k))
  (at level 61, right associativity).

Definition call {W A} (ev : exn + A -> Event) (f : W -> (exn + A) * W) : M W A :=
  fun w =>
    let (r, w') := f w in
    {| trace := [ev r]; result := r; world := w' |}.

(** [for x in xs: body(x)]; a [continue] is the body returning early. *)
Fixpoint for_ {W A} (xs : list A) (loop_body : A -> M W unit) : M W unit :=
  match xs with
  | [] => ret tt
  | x :: rest => loop_body x ;;; for_ rest loop_body
  end.

(** ** Python's string formatting and membership *)

Definition newline : string := String (ascii_of_nat 10) EmptyString.

(** [f"{v}"] for a value that is a [str] or [None]. *)
Definition format_value (v : option string) : string :=
  match v with
  | Some s => s
  | None => "None"
  end.

(** [x in xs] on a list of strings. *)
Definition py_in (x : string) (xs : list string) : bool :=
  existsb (String.eqb x) xs.

(** ** The script *)

Definition UPSTREAM_REPO : string :=
  "ssc-spc-ccoe-cei/azure-guardrails-solution-accelerator".
Definition FORK_REPO : string :=
  "adamga/azure-guardrails-solution-accelerator".
Definition LABEL_PREFIX : string := "[Upstream]".

(** [any(i.title == issue.title for i in existing)] *)
Definition already_synced (existing : list Issue) (issue : Issue) : bool :=
  existsb (fun i => String.eqb (title i) (title issue)) existing.

(** [labels_to_apply = []], then [append("triage")] when the label exists. *)
Definition labels_to_apply (available_labels : list string) : list string :=
  let labels_to_apply := [] in
  if py_in "triage" available_labels
  then labels_to_apply ++ ["triage"]
  else labels_to_apply.

(** [f"{LABEL_PREFIX} {issue.title}"] *)
Definition new_title (issue : Issue) : string :=
  LABEL_PREFIX ++ " " ++ title issue.

(** [f"**Original Issue:** {issue.html_url}\n\n{issue.body}"] *)
Definition new_body (issue : Issue) : string :=
  "**Original Issue:** " ++ html_url issue ++ newline ++ newline
    ++ format_value (body issue).

Section Script.
Context {W : Type} {api : GitHub W}.

Definition get_repo (full_name_or_id : string) : M W Repository :=
  call (EvGetRepo full_name_or_id) (gh_get_repo full_name_or_id).

(** A listing ([get_issues], [get_labels]) is one call answered with the
    whole list: the pages PyGithub fetches behind it, and the moment it
    fetches them, are not told apart. *)
Definition get_issues (repo : Repository) (state : string)
    (labels : option (list string)) : M W (list Issue) :=
  call (EvGetIssues repo state labels) (repo_get_issues repo state labels).

Definition get_labels (repo : Repository) : M W (list Label) :=
  call (EvGetLabels repo) (repo_get_labels repo).

Definition create_issue (repo : Repository) (title body : string)
    (labels : list string) : M W Issue :=
  call (EvCreateIssue repo title body labels)
       (repo_create_issue repo title body labels).

Definition print (line : string) : M W unit :=
  call (EvPrint line) (sys_print line).

(** The body of [for issue in upstream_issues:]. *)
Definition loop_body (fork : Repository) (issue : Issue) : M W unit :=
  existing <- get_issues fork "all" (Some [LABEL_PREFIX]) ;;
  if already_synced existing issue then
    ret tt
  else
    fork_labels <- get_labels fork ;;
    let available_labels := map name fork_labels in
    create_issue fork (new_title issue) (new_body issue)
                 (labels_to_apply available_labels) ;;;
    ret tt.

(** [# === SYNC TO FORK ===] *)
Definition sync_loop (fork : Repository) (upstream_issues : list Issue)
    : M W unit :=
  for_ upstream_issues (loop_body fork).

(** The whole module, top to bottom.  The client [gh] is the interface
    [api]; the token it was built from is part of the world. *)
Definition sync_issues : M W unit :=
  upstream <- get_repo UPSTREAM_REPO ;;
  fork <- get_repo FORK_REPO ;;
  upstream_issues <- get_issues upstream "open" None ;;
  sync_loop fork upstream_issues ;;;
  print "Issues synced successfully.".

End Script.

(** ** Reading a trace *)

(** The keyword arguments of one [create_issue] call. *)
Record CreateRequest : Type := {
  req_repo : Repository;
  req_title : string;
  req_body : string;
  req_labels : list string
}.

(** The creation requests of a trace, in the order they were sent. *)
Definition create_requests (tr : list Event) : list CreateRequest :=
  flat_map (fun ev =>
    match ev with
    | EvCreateIssue repo t b ls _ =>
        [{| req_repo := repo; req_title := t; req_body := b; req_labels := ls |}]
    | _ => []
    end) tr.

(** The issue lists that the [get_issues] calls of a trace returned. *)
Definition issue_reads (tr : list Event) : list (list Issue) :=
  flat_map (fun ev =>
    match ev with
    | EvGetIssues _ _ _ (inr issues) => [issues]
    | _ => []
    end) tr.

(** The label lists that the [get_labels] calls of a trace returned. *)
Definition label_reads (tr : list Event) : list (list Label) :=
  flat_map (fun ev =>
    match ev with
    | EvGetLabels _ (inr ls) => [ls]
    | _ => []
    end) tr.

(** How many [get_issues] and [get_labels] calls a trace holds, answered
    or not. *)
Definition get_issues_calls (tr : list Event) : nat :=
  length (filter (fun ev =>
    match ev with EvGetIssues _ _ _ _ => true | _ => false end) tr).

Definition get_labels_calls (tr : list Event) : nat :=
  length (filter (fun ev =>
    match ev with EvGetLabels _ _ => true | _ => false end) tr).

(** The exception a call was answered with, if any. *)
Definition raised (ev : Event) : option exn :=
  match ev with
  | EvGetRepo _ (inl e) | EvGetIssues _ _ _ (inl e) | EvGetLabels _ (inl e)
  | EvCreateIssue _ _ _ _ (inl e) | EvPrint _ (inl e) => Some e
  | _ => None
  end.

(** An outcome with more calls in front of it. *)
Definition prepend {W A} (tr : list Event) (o : Outcome W A) : Outcome W A :=
  {| trace := tr ++ trace o; result := result o; world := world o |}.

(** The title marker as it appears in a created title: the prefix and the
    space that follows it. *)
Definition marker : string := LABEL_PREFIX ++ " ".

(** The request the script sends for [issue] when the fork offers
    [available] labels. *)
Definition request_for (fork : Repository) (available : list Label)
    (issue : Issue) : CreateRequest :=
  {| req_repo := fork;
     req_title := new_title issue;
     req_body := new_body issue;
     req_labels := labels_to_apply (map name available) |}.

(** The source issues for which the duplicate check, run against the
    issue list read for each of them, found no match. *)
Definition unmatched (upstream_issues : list Issue)
    (reads : list (list Issue)) : list Issue :=
  map fst (filter (fun p => negb (already_synced (snd p) (fst p)))
                  (combine upstream_issues reads)).

(** The sentence of the specification on repeated reads, as it is
    written: in a run that reaches its end, both reads happen once per
    source issue. *)
Definition reads_once_per_source_issue {W} {api : GitHub W}
    (fork : Repository) (upstream_issues : list Issue) (w : W) : Prop :=
  let o := sync_loop fork upstream_issues w in
  result o = inr tt ->
  get_issues_calls (trace o) = length upstream_issues /\
  get_labels_calls (trace o) = length upstream_issues.

(** ** An in-memory GitHub

    Repositories are kept by full name; listing filters by state and by
    label names as the REST API does; creating an issue appends it, open,
    with the labels asked for.  Every API call spends one unit of the rate
    limit and raises [RateLimitExceededException] when none is left; a
    repository that does not exist raises [UnknownObjectException]. *)
Module InMemory.

Record RepoState : Type := {
  repo_issues : list Issue;
  repo_labels : list Label
}.

Record World : Type := {
  repos : list (string * RepoState);
  stdout : list string;
  rate_limit : nat
}.

Fixpoint lookup (n : string) (rs : list (string * RepoState))
    : option RepoState :=
  match rs with
  | [] => None
  | (k, v) :: rest => if String.eqb k n then Some v else lookup n rest
  end.

Fixpoint update (n : string) (v : RepoState)
    (rs : list (string * RepoState)) : list (string * RepoState) :=
  match rs with
  | [] => []
  | (k, old) :: rest =>
      if String.eqb k n then (k, v) :: rest else (k, old) :: update n v rest
  end.

Definition state_matches (state : string) (i : Issue) : bool :=
  String.eqb state "all" || String.eqb (issue_state i) state.

Definition labels_match (labels : option (list string)) (i : Issue) : bool :=
  match labels with
  | None => true
  | Some ls => forallb (fun l => py_in l (issue_labels i)) ls
  end.

(** One API call on [repo]: [f] receives the repository and the world
    with the call already paid for. *)
Definition with_repo {A} (repo : Repository) (w : World)
    (f : RepoState -> World -> (exn + A) * World) : (exn + A) * World :=
  match rate_limit w with
  | O => (inl RateLimitExceededException, w)
  | S n =>
      let w' := {| repos := repos w; stdout := stdout w; rate_limit := n |} in
      match lookup (full_name repo) (repos w) with
      | Some rs => f rs w'
      | None => (inl UnknownObjectException, w')
      end
  end.

Definition mem_get_repo (n : string) (w : World) : (exn + Repository) * World :=
  with_repo {| full_name := n |} w (fun _ w' => (inr {| full_name := n |}, w')).

Definition mem_get_issues (repo : Repository) (state : string)
    (labels : option (list string)) (w : World) : (exn + list Issue) * World :=
  with_repo repo w (fun rs w' =>
    (inr (filter (fun i => state_matches state i && labels_match labels i)
                 (repo_issues rs)), w')).

Definition mem_get_labels (repo : Repository) (w : World)
    : (exn + list Label) * World :=
  with_repo repo w (fun rs w' => (inr (repo_labels rs), w')).

Definition mem_create_issue (repo : Repository) (t b : string)
    (ls : list string) (w : World) : (exn + Issue) * World :=
  with_repo repo w (fun rs w' =>
    let i := {| title := t; body := Some b;
                html_url := "https://github.com/" ++ full_name repo ++ "/issues";
                issue_state := "open"; issue_labels := ls |} in
    (inr i,
     {| repos := update (full_name repo)
                   {| repo_issues := repo_issues rs ++ [i];
                      repo_labels := repo_labels rs |} (repos w');
        stdout := stdout w';
        rate_limit := rate_limit w' |})).

Definition mem_print (line : string) (w : World) : (exn + unit) * World :=
  (inr tt,
   {| repos := repos w; stdout := stdout w ++ [line];
      rate_limit := rate_limit w |}).

#[global] Instance api : GitHub World := {
  gh_get_repo := mem_get_repo;
  repo_get_issues := mem_get_issues;
  repo_get_labels := mem_get_labels;
  repo_create_issue := mem_create_issue;
  sys_print := mem_print
}.

(** A world holding the two repositories of the script, with [budget]
    API calls left. *)
Definition github (upstream_issues fork_issues : list Issue)
    (fork_labels : list Label) (budget : nat) : World :=
  {| repos :=
       [ (UPSTREAM_REPO, {| repo_issues := upstream_issues; repo_labels := [] |});
         (FORK_REPO, {| repo_issues := fork_issues; repo_labels := fork_labels |}) ];
     stdout := [];
     rate_limit := budget |}.

Definition the_fork : Repository := {| full_name := FORK_REPO |}.

(** An open upstream issue, and a fork issue with given state and labels. *)
Definition upstream_issue (t : string) (b : option string) : Issue :=
  {| title := t; body := b;
     html_url := "https://github.com/" ++ UPSTREAM_REPO ++ "/issues";
     issue_state := "open"; issue_labels := [] |}.

Definition fork_issue (t state : string) (ls : list string) : Issue :=
  {| title := t; body := Some "";
     html_url := "https://github.com/" ++ FORK_REPO ++ "/issues";
     issue_state := state; issue_labels := ls |}.

End InMemory.

(** ** One turn of the loop, case by case *)

Section Iteration.
Context {W : Type} {api : GitHub W}.
Variable fork : Repository.

(** The listing the duplicate check is run against. *)
Definition tagged_read : exn + list Issue -> Event :=
  EvGetIssues fork "all" (Some [LABEL_PREFIX]).

(** The creation call for [issue] when the fork offers [available] labels. *)
Definition creation (issue : Issue) (available : list Label)
    : exn + Issue -> Event :=
  EvCreateIssue fork (new_title issue) (new_body issue)
                (labels_to_apply (map name available)).

(** The five ways one turn for [issue], started in world [w], can go. *)
Inductive iteration (issue : Issue) (w : W) : Outcome W unit -> Prop :=
| listing_raises e w1 :
    repo_get_issues fork "all" (Some [LABEL_PREFIX]) w = (inl e, w1) ->
    iteration issue w
      {| trace := [tagged_read (inl e)]; result := inl e; world := w1 |}
| skipped existing w1 :
    repo_get_issues fork "all" (Some [LABEL_PREFIX]) w = (inr existing, w1) ->
    already_synced existing issue = true ->
    iteration issue w
      {| trace := [tagged_read (inr existing)]; result := inr tt; world := w1 |}
| labels_raise existing w1 e w2 :
    repo_get_issues fork "all" (Some [LABEL_PREFIX]) w = (inr existing, w1) ->
    already_synced existing issue = false ->
    repo_get_labels fork w1 = (inl e, w2) ->
    iteration issue w
      {| trace := [tagged_read (inr existing); EvGetLabels fork (inl e)];
         result := inl e; world := w2 |}
| creation_raises existing w1 available w2 e w3 :
    repo_get_issues fork "all" (Some [LABEL_PREFIX]) w = (inr existing, w1) ->
    already_synced existing issue = false ->
    repo_get_labels fork w1 = (inr available, w2) ->
    repo_create_issue fork (new_title issue) (new_body issue)
      (labels_to_apply (map name available)) w2 = (inl e, w3) ->
    iteration issue w
      {| trace := [tagged_read (inr existing); EvGetLabels fork (inr available);
                   creation issue available (inl e)];
         result := inl e; world := w3 |}
| created existing w1 available w2 new w3 :
    repo_get_issues fork "all" (Some [LABEL_PREFIX]) w = (inr existing, w1) ->
    already_synced existing issue = false ->
    repo_get_labels fork w1 = (inr available, w2) ->
    repo_create_issue fork (new_title issue) (new_body issue)
      (labels_to_apply (map name available)) w2 = (inr new, w3) ->
    iteration issue w
      {| trace := [tagged_read (inr existing); EvGetLabels fork (inr available);
                   creation issue available (inr new)];
         result := inr tt; world := w3 |}.

End Iteration.

(** A run that stops at the first exception: either no call raised and
    the run returned, or the last call raised and the run ended with that
    very exception. *)
Definition quiet (tr : list Event) : Prop :=
  Forall (fun ev => raised ev = None) tr.

Definition stops_at_first_fault {W A} (o : Outcome W A) : Prop :=
  match result o with
  | inr _ => quiet (trace o)
  | inl e =>
      exists pre ev,
        trace o = (pre ++ [ev])%list /\ quiet pre /\ raised ev = Some e
  end.

(** A listing made the way the duplicate check makes it: every state,
    restricted to the marker label. *)
Definition lists_all_states (ev : Event) : Prop :=
  match ev with
  | EvGetIssues _ state labels _ =>
      state = "all" /\ labels = Some [LABEL_PREFIX]
  | _ => True
  end.

(** ** Concrete repositories *)
Module Scenario.
Import InMemory.

Definition bug_a : Issue := upstream_issue "Bug A" (Some "It crashes.").
Definition bug_b : Issue := upstream_issue "Bug B" (Some "It hangs.").
Definition bug_a_again : Issue := upstream_issue "Bug A" (Some "Still crashes.").
Definition no_description : Issue := upstream_issue "Bug C" None.

(** Label sets of the fork. *)
Definition triage_and_bug : list Label :=
  [ {| name := "triage" |}; {| name := "bug" |} ].
Definition only_bug : list Label := [ {| name := "bug" |} ].

(** Issues already in the fork, all carrying the marker label. *)
Definition raw_bug_a : Issue := fork_issue "Bug A" "open" [LABEL_PREFIX].
Definition closed_bug_a : Issue := fork_issue "Bug A" "closed" [LABEL_PREFIX].
Definition mirrored_bug_a : Issue :=
  fork_issue "[Upstream] Bug A" "open" [LABEL_PREFIX].

End Scenario.

(** ** The script as a whole, case by case *)

(** A call made on the repository [repo]: a listing or a creation there. *)
Definition on_repo (repo : Repository) (ev : Event) : Prop :=
  match ev with
  | EvGetIssues r _ _ _ | EvGetLabels r _ | EvCreateIssue r _ _ _ _ => r = repo
  | EvGetRepo _ _ | EvPrint _ _ => False
  end.

Definition is_print (ev : Event) : Prop :=
  match ev with
  | EvPrint _ _ => True
  | _ => False
  end.

(** The line printed at the end. *)
Definition confirmation : string := "Issues synced successfully.".

Section ScriptRuns.
Context {W : Type} {api : GitHub W}.

(** The calls before the loop, all answered. *)
Definition preamble (upstream fork : Repository)
    (upstream_issues : list Issue) : list Event :=
  [ EvGetRepo UPSTREAM_REPO (inr upstream);
    EvGetRepo FORK_REPO (inr fork);
    EvGetIssues upstream "open" None (inr upstream_issues) ].

(** The five ways a run of the script, started in world [w], can go. *)
Inductive script_run (w : W) : Outcome W unit -> Prop :=
| upstream_repo_raises e w1 :
    gh_get_repo UPSTREAM_REPO w = (inl e, w1) ->
    script_run w
      {| trace := [EvGetRepo UPSTREAM_REPO (inl e)];
         result := inl e; world := w1 |}
| fork_repo_raises upstream w1 e w2 :
    gh_get_repo UPSTREAM_REPO w = (inr upstream, w1) ->
    gh_get_repo FORK_REPO w1 = (inl e, w2) ->
    script_run w
      {| trace := [EvGetRepo UPSTREAM_REPO (inr upstream);
                   EvGetRepo FORK_REPO (inl e)];
         result := inl e; world := w2 |}
| upstream_listing_raises upstream w1 fork w2 e w3 :
    gh_get_repo UPSTREAM_REPO w = (inr upstream, w1) ->
    gh_get_repo FORK_REPO w1 = (inr fork, w2) ->
    repo_get_issues upstream "open" None w2 = (inl e, w3) ->
    script_run w
      {| trace := [EvGetRepo UPSTREAM_REPO (inr upstream);
                   EvGetRepo FORK_REPO (inr fork);
                   EvGetIssues upstream "open" None (inl e)];
         result := inl e; world := w3 |}
| loop_raises upstream w1 fork w2 upstream_issues w3 e :
    gh_get_repo UPSTREAM_REPO w = (inr upstream, w1) ->
    gh_get_repo FORK_REPO w1 = (inr fork, w2) ->
    repo_get_issues upstream "open" None w2 = (inr upstream_issues, w3) ->
    result (sync_loop fork upstream_issues w3) = inl e ->
    script_run w
      {| trace := preamble upstream fork upstream_issues
                    ++ trace (sync_loop fork upstream_issues w3);
         result := inl e;
         world := world (sync_loop fork upstream_issues w3) |}
| loop_returns upstream w1 fork w2 upstream_issues w3 r w4 :
    gh_get_repo UPSTREAM_REPO w = (inr upstream, w1) ->
    gh_get_repo FORK_REPO w1 = (inr fork, w2) ->
    repo_get_issues upstream "open" None w2 = (inr upstream_issues, w3) ->
    result (sync_loop fork upstream_issues w3) = inr tt ->
    sys_print confirmation (world (sync_loop fork upstream_issues w3))
      = (r, w4) ->
    script_run w
      {| trace := preamble upstream fork upstream_issues
                    ++ trace (sync_loop fork upstream_issues w3)
                    ++ [EvPrint confirmation r];
         result := r; world := w4 |}.

End ScriptRuns.

(** * Properties *)

(** ** The monad and the loop *)

#[global] Arguments new_title : simpl never.
#[global] Arguments new_body : simpl never.
#[global] Arguments labels_to_apply : simpl never.
#[global] Arguments sync_loop : simpl never.

Section Runs.
Context {W : Type} {api : GitHub W}.
Implicit Types (fork : Repository) (w : W) (issue : Issue).

Lemma loop_body_cases fork issue w :
  iteration fork issue w (loop_body fork issue w).
Proof.
  unfold loop_body, bind, get_issues, get_labels, create_issue, call.
  destruct (repo_get_issues fork "all" (Some [LABEL_PREFIX]) w)
    as [[e | existing] w1] eqn:Hread; cbn.
  - now apply listing_raises.
  - destruct (already_synced existing issue) eqn:Hsync; cbn.
    + now apply skipped.
    + destruct (repo_get_labels fork w1) as [[e | available] w2] eqn:Hlab; cbn.
      * now apply labels_raise with (w1 := w1).
      * destruct (repo_create_issue fork (new_title issue) (new_body issue)
                    (labels_to_apply (map name available)) w2)
          as [[e | new] w3] eqn:Hcre; cbn.
        -- now apply creation_raises with (w1 := w1) (w2 := w2).
        -- now apply created with (w1 := w1) (w2 := w2).
Qed.

Lemma sync_loop_nil fork w :
  sync_loop fork [] w = {| trace := []; result := inr tt; world := w |}.
Proof. reflexivity. Qed.

Lemma sync_loop_cons fork issue rest w :
  sync_loop fork (issue :: rest) w =
  match result (loop_body fork issue w) with
  | inl e =>
      {| trace := trace (loop_body fork issue w); result := inl e;
         world := world (loop_body fork issue w) |}
  | inr _ =>
      prepend (trace (loop_body fork issue w))
              (sync_loop fork rest (world (loop_body fork issue w)))
  end.
Proof. reflexivity. Qed.

Lemma sync_loop_app fork l1 l2 w :
  sync_loop fork (l1 ++ l2) w =
  match result (sync_loop fork l1 w) with
  | inl e =>
      {| trace := trace (sync_loop fork l1 w); result := inl e;
         world := world (sync_loop fork l1 w) |}
  | inr _ =>
      prepend (trace (sync_loop fork l1 w))
              (sync_loop fork l2 (world (sync_loop fork l1 w)))
  end.
Proof.
  revert w; induction l1 as [| a l1 IH]; intro w.
  - rewrite app_nil_l, sync_loop_nil. unfold prepend.
    cbn [trace result world]. now destruct (sync_loop fork l2 w).
  - rewrite <- app_comm_cons, !sync_loop_cons.
    destruct (loop_body fork a w) as [tr [e | []] w'];
      cbn [trace result world]; [reflexivity |].
    rewrite IH.
    destruct (sync_loop fork l1 w') as [tr1 [e | []] w1];
      unfold prepend; cbn [trace result world]; [reflexivity |].
    now rewrite app_assoc.
Qed.

(** The run up to the turn of [issue], and the run from that turn on. *)
Lemma sync_loop_at fork pre issue post w0 tr_pre w :
  sync_loop fork pre w0 = {| trace := tr_pre; result := inr tt; world := w |} ->
  sync_loop fork (pre ++ issue :: post) w0 =
  prepend tr_pre (sync_loop fork (issue :: post) w).
Proof.
  intro Hpre. rewrite sync_loop_app, Hpre. reflexivity.
Qed.

End Runs.

(** ** Reading traces piece by piece *)

Lemma create_requests_app tr1 tr2 :
  create_requests (tr1 ++ tr2) = (create_requests tr1 ++ create_requests tr2)%list.
Proof. apply flat_map_app. Qed.

Lemma issue_reads_app tr1 tr2 :
  issue_reads (tr1 ++ tr2) = (issue_reads tr1 ++ issue_reads tr2)%list.
Proof. apply flat_map_app. Qed.

Lemma label_reads_app tr1 tr2 :
  label_reads (tr1 ++ tr2) = (label_reads tr1 ++ label_reads tr2)%list.
Proof. apply flat_map_app. Qed.

Lemma get_issues_calls_app tr1 tr2 :
  get_issues_calls (tr1 ++ tr2) = get_issues_calls tr1 + get_issues_calls tr2.
Proof. unfold get_issues_calls. now rewrite filter_app, length_app. Qed.

Lemma get_labels_calls_app tr1 tr2 :
  get_labels_calls (tr1 ++ tr2) = get_labels_calls tr1 + get_labels_calls tr2.
Proof. unfold get_labels_calls. now rewrite filter_app, length_app. Qed.

Lemma py_in_spec x xs : py_in x xs = true <-> In x xs.
Proof.
  unfold py_in. rewrite existsb_exists. split.
  - intros [y [Hy Heq]]. apply String.eqb_eq in Heq. now subst.
  - intro Hx. exists x. split; [assumption | apply String.eqb_refl].
Qed.

Lemma already_synced_true existing issue :
  already_synced existing issue = true <->
  exists i, In i existing /\ title i = title issue.
Proof.
  unfold already_synced. rewrite existsb_exists.
  split; intros [i [Hi Heq]]; exists i; split; trivial;
    now apply String.eqb_eq.
Qed.

Lemma already_synced_false existing issue :
  already_synced existing issue = false <->
  forall i, In i existing -> title i <> title issue.
Proof.
  split.
  - intros Hno i Hi Heq.
    assert (already_synced existing issue = true) as Hyes
      by (apply already_synced_true; eauto).
    congruence.
  - intro Hall. destruct (already_synced existing issue) eqn:Hs; trivial.
    apply already_synced_true in Hs as [i [Hi Heq]]. now destruct (Hall i Hi).
Qed.

Lemma new_title_marker issue : new_title issue = marker ++ title issue.
Proof. reflexivity. Qed.

(** Two answers of the same call in the same world are the same answer. *)
Ltac same_answers :=
  repeat match goal with
  | H1 : ?call = _, H2 : ?call = _ |- _ =>
      rewrite H1 in H2; inversion H2; subst; clear H2
  end;
  try congruence.

Section Turns.
Context {W : Type} {api : GitHub W}.
Implicit Types (fork : Repository) (w : W) (issue : Issue).

Lemma loop_body_skip fork issue w existing w1 :
  repo_get_issues fork "all" (Some [LABEL_PREFIX]) w = (inr existing, w1) ->
  already_synced existing issue = true ->
  loop_body fork issue w =
  {| trace := [tagged_read fork (inr existing)]; result := inr tt; world := w1 |}.
Proof.
  intros Hread Hsync.
  destruct (loop_body_cases fork issue w); same_answers.
Qed.

Lemma loop_body_create fork issue w existing w1 available w2 r w3 :
  repo_get_issues fork "all" (Some [LABEL_PREFIX]) w = (inr existing, w1) ->
  already_synced existing issue = false ->
  repo_get_labels fork w1 = (inr available, w2) ->
  repo_create_issue fork (new_title issue) (new_body issue)
    (labels_to_apply (map name available)) w2 = (r, w3) ->
  loop_body fork issue w =
  {| trace := [tagged_read fork (inr existing); EvGetLabels fork (inr available);
               creation fork issue available r];
     result := match r with inl e => inl e | inr _ => inr tt end;
     world := w3 |}.
Proof.
  intros Hread Hsync Hlab Hcre.
  destruct (loop_body_cases fork issue w); same_answers.
Qed.

End Turns.

(** Every listing of the loop asks for all states and the marker label. *)
Lemma sync_loop_lists_all_states {W} {api : GitHub W}
    (fork : Repository) (upstream_issues : list Issue) (w : W) :
  Forall lists_all_states (trace (sync_loop fork upstream_issues w)).
Proof.
  revert w; induction upstream_issues as [| issue rest IH]; intro w.
  - constructor.
  - rewrite sync_loop_cons.
    destruct (loop_body_cases fork issue w); cbn [trace result world prepend];
      repeat (apply Forall_cons; [cbn; auto |]);
      try constructor; apply IH.
Qed.

(** ** Source issues taken one at a time

    In the statements below the run has gone through the source issues
    [pre] without an exception and is about to start the turn of [issue]
    in world [w]; [post] are the source issues after it. *)

Section PerIssue.
Context {W : Type} {api : GitHub W}.
Variables (fork : Repository) (pre post : list Issue) (issue : Issue).
Variables (w0 w : W) (tr_pre : list Event).
Hypothesis Hpre :
  sync_loop fork pre w0 = {| trace := tr_pre; result := inr tt; world := w |}.

Lemma sync_loop_at_skip existing w1 :
  repo_get_issues fork "all" (Some [LABEL_PREFIX]) w = (inr existing, w1) ->
  already_synced existing issue = true ->
  sync_loop fork (pre ++ issue :: post) w0 =
    prepend (tr_pre ++ [tagged_read fork (inr existing)])
            (sync_loop fork post w1).
Proof.
  intros Hread Hsync.
  rewrite (sync_loop_at _ _ _ _ _ _ _ Hpre), sync_loop_cons.
  rewrite (loop_body_skip _ _ _ _ _ Hread Hsync).
  unfold prepend; cbn [trace result world]. now rewrite app_assoc.
Qed.

Lemma sync_loop_at_create existing w1 available w2 r w3 :
  repo_get_issues fork "all" (Some [LABEL_PREFIX]) w = (inr existing, w1) ->
  already_synced existing issue = false ->
  repo_get_labels fork w1 = (inr available, w2) ->
  repo_create_issue fork (new_title issue) (new_body issue)
    (labels_to_apply (map name available)) w2 = (r, w3) ->
  sync_loop fork (pre ++ issue :: post) w0 =
    prepend (tr_pre ++ [tagged_read fork (inr existing);
                        EvGetLabels fork (inr available);
                        creation fork issue available r])
            match r with
            | inl e => {| trace := []; result := inl e; world := w3 |}
            | inr _ => sync_loop fork post w3
            end.
Proof.
  intros Hread Hsync Hlab Hcre.
  rewrite (sync_loop_at _ _ _ _ _ _ _ Hpre), sync_loop_cons.
  rewrite (loop_body_create _ _ _ _ _ _ _ _ _ Hread Hsync Hlab Hcre).
  unfold prepend; cbn [trace result world].
  destruct r as [e | new]; cbn [trace result world].
  - now rewrite app_nil_r.
  - now rewrite app_assoc.
Qed.

(** C2.  When the title of [issue], as it is upstream, is the title of one
    of the tagged issues the fork lists at that moment, the turn of
    [issue] consists of the listing alone and the run goes on with the
    next source issue: the creation requests of the run are those sent
    before and those sent after, none for [issue]. *)
Theorem already_synced_issue_is_skipped existing w1 :
  repo_get_issues fork "all" (Some [LABEL_PREFIX]) w = (inr existing, w1) ->
  (exists i, In i existing /\ title i = title issue) ->
  sync_loop fork (pre ++ issue :: post) w0 =
    prepend (tr_pre ++ [tagged_read fork (inr existing)])
            (sync_loop fork post w1)
  /\ create_requests (trace (sync_loop fork (pre ++ issue :: post) w0)) =
     (create_requests tr_pre
        ++ create_requests (trace (sync_loop fork post w1)))%list.
Proof.
  intros Hread Hmatch.
  apply already_synced_true in Hmatch.
  pose proof (sync_loop_at_skip _ _ Hread Hmatch) as Hrun.
  split; [exact Hrun |].
  rewrite Hrun. unfold prepend; cbn [trace].
  rewrite !create_requests_app. cbn. now rewrite app_nil_r.
Qed.

(** C3.  When no tagged issue the fork lists at that moment has the title
    of [issue], and the label listing answers, the turn of [issue] is the
    two listings followed by one creation call.  Its title is the marker
    prefix, a space and the source title.  Its body is
    ["**Original Issue:** "], the source URL, two line feeds, and then
    the source body itself, character for character, when the issue has
    one (the text [None] when it has none).  The creation requests of
    the run are those sent before, this one, and those sent after. *)
Theorem unmatched_issue_is_created_once existing w1 available w2 r w3 :
  repo_get_issues fork "all" (Some [LABEL_PREFIX]) w = (inr existing, w1) ->
  (forall i, In i existing -> title i <> title issue) ->
  repo_get_labels fork w1 = (inr available, w2) ->
  repo_create_issue fork
    (LABEL_PREFIX ++ " " ++ title issue)
    ("**Original Issue:** " ++ html_url issue
       ++ String (ascii_of_nat 10) (String (ascii_of_nat 10)
            match body issue with
            | Some text => text
            | None => "None"
            end))
    (labels_to_apply (map name available)) w2 = (r, w3) ->
  let request :=
    {| req_repo := fork;
       req_title := LABEL_PREFIX ++ " " ++ title issue;
       req_body :=
         "**Original Issue:** " ++ html_url issue
           ++ String (ascii_of_nat 10) (String (ascii_of_nat 10)
                match body issue with
                | Some text => text
                | None => "None"
                end);
       req_labels := labels_to_apply (map name available) |} in
  let rest :=
    match r with
    | inl _ => []
    | inr _ => trace (sync_loop fork post w3)
    end in
  trace (sync_loop fork (pre ++ issue :: post) w0) =
    (tr_pre
      ++ [EvGetIssues fork "all" (Some [LABEL_PREFIX]) (inr existing);
          EvGetLabels fork (inr available);
          EvCreateIssue fork (req_title request) (req_body request)
                        (req_labels request) r]
      ++ rest)%list
  /\ create_requests (trace (sync_loop fork (pre ++ issue :: post) w0)) =
     (create_requests tr_pre ++ request :: create_requests rest)%list.
Proof.
  intros Hread Hnone Hlab Hcre request rest.
  apply already_synced_false in Hnone.
  assert (new_body issue =
          "**Original Issue:** " ++ html_url issue
            ++ String (ascii_of_nat 10) (String (ascii_of_nat 10)
                 match body issue with
                 | Some text => text
                 | None => "None"
                 end)) as Hbody
    by (unfold new_body, newline; now destruct (body issue)).
  rewrite <- Hbody in Hcre. subst request. rewrite <- Hbody.
  pose proof (sync_loop_at_create _ _ _ _ _ _ Hread Hnone Hlab Hcre) as Hrun.
  assert (trace (sync_loop fork (pre ++ issue :: post) w0) =
          (tr_pre
             ++ [tagged_read fork (inr existing);
                 EvGetLabels fork (inr available);
                 creation fork issue available r] ++ rest)%list) as Htrace.
  { rewrite Hrun. unfold prepend; cbn [trace]. rewrite <- app_assoc.
    subst rest. now destruct r. }
  split; [exact Htrace |].
  rewrite Htrace, create_requests_app. reflexivity.
Qed.

(** C8.  Under the conditions of C3, when the source issue has no body
    ([None]), the body of the creation request sent for it ends with the
    four letters [None]: the URL line, an empty line, and ["None"]. *)
Theorem missing_body_is_written_as_None existing w1 available w2 :
  repo_get_issues fork "all" (Some [LABEL_PREFIX]) w = (inr existing, w1) ->
  (forall i, In i existing -> title i <> title issue) ->
  repo_get_labels fork w1 = (inr available, w2) ->
  body issue = None ->
  exists request later,
    create_requests (trace (sync_loop fork (pre ++ issue :: post) w0)) =
      (create_requests tr_pre ++ request :: later)%list
    /\ req_title request = LABEL_PREFIX ++ " " ++ title issue
    /\ req_body request =
         "**Original Issue:** " ++ html_url issue ++ newline ++ newline
           ++ "None".
Proof.
  intros Hread Hnone Hlab Hbody.
  apply already_synced_false in Hnone.
  destruct (repo_create_issue fork (new_title issue) (new_body issue)
              (labels_to_apply (map name available)) w2) as [r w3] eqn:Hcre.
  rewrite (sync_loop_at_create _ _ _ _ _ _ Hread Hnone Hlab Hcre).
  unfold prepend; cbn [trace].
  rewrite !create_requests_app, <- app_assoc.
  eexists; eexists; split; [cbn; reflexivity |].
  cbn [req_title req_body]. split; [reflexivity |].
  unfold new_body. now rewrite Hbody.
Qed.

(** C9.  The listing of the duplicate check asks for state ["all"], and
    the check does not look at the state of what it gets back: when a
    closed tagged issue with the title of [issue] is in the answer, the
    turn of [issue] is that listing alone and no creation request is sent
    for it.  Every listing of the run is made that way. *)
Theorem closed_tagged_issue_suppresses_creation existing w1 i :
  repo_get_issues fork "all" (Some [LABEL_PREFIX]) w = (inr existing, w1) ->
  In i existing ->
  issue_state i = "closed" ->
  title i = title issue ->
  trace (sync_loop fork (pre ++ issue :: post) w0) =
    (tr_pre
       ++ EvGetIssues fork "all" (Some [LABEL_PREFIX]) (inr existing)
       :: trace (sync_loop fork post w1))%list
  /\ create_requests (trace (sync_loop fork (pre ++ issue :: post) w0)) =
     (create_requests tr_pre
        ++ create_requests (trace (sync_loop fork post w1)))%list
  /\ Forall lists_all_states
       (trace (sync_loop fork (pre ++ issue :: post) w0)).
Proof.
  intros Hread Hin _ Htitle.
  assert (already_synced existing issue = true) as Hsync
    by (apply already_synced_true; eauto).
  assert (trace (sync_loop fork (pre ++ issue :: post) w0) =
          (tr_pre ++ tagged_read fork (inr existing)
             :: trace (sync_loop fork post w1))%list) as Htrace.
  { rewrite (sync_loop_at_skip _ _ Hread Hsync).
    unfold prepend; cbn [trace]. now rewrite <- app_assoc. }
  split; [exact Htrace |]. split.
  - rewrite Htrace, create_requests_app. reflexivity.
  - apply sync_loop_lists_all_states.
Qed.

End PerIssue.

(** ** Whole runs of the loop *)

Lemma labels_to_apply_spec available_labels :
  labels_to_apply available_labels =
  if py_in "triage" available_labels then ["triage"] else [].
Proof. reflexivity. Qed.

Lemma prefixed_titles_differ existing issue :
  Forall (fun i => String.prefix marker (title i) = true) existing ->
  String.prefix marker (title issue) = false ->
  already_synced existing issue = false.
Proof.
  intros Hall Hsrc. apply already_synced_false. intros i Hi Heq.
  rewrite Forall_forall in Hall. specialize (Hall i Hi). congruence.
Qed.

(** Unfold one turn of the loop and read the trace it leaves. *)
Ltac read_trace :=
  unfold prepend, tagged_read, creation in *;
  cbn [trace result world] in *;
  rewrite ?create_requests_app, ?issue_reads_app, ?label_reads_app,
    ?get_issues_calls_app, ?get_labels_calls_app in *;
  cbn [create_requests issue_reads label_reads get_issues_calls
       get_labels_calls flat_map filter app length Nat.add] in *.

Ltac one_turn fork issue w :=
  rewrite (sync_loop_cons fork issue) in *;
  destruct (loop_body_cases fork issue w);
  read_trace.

Section WholeRuns.
Context {W : Type} {api : GitHub W}.
Variable fork : Repository.
Implicit Types (w : W) (issue : Issue) (upstream_issues : list Issue).

(** C4.  Whether ["triage"] is among the labels of the fork decides the
    labels of every creation request: when each label listing of the run
    has it, every request carries exactly [["triage"]]; when none has it,
    every request carries no label at all.  ([b] tells which of the two
    holds.) *)
Theorem triage_label_follows_the_label_set upstream_issues w (b : bool) :
  Forall (fun available => In "triage" (map name available) <-> b = true)
         (label_reads (trace (sync_loop fork upstream_issues w))) ->
  Forall (fun request => req_labels request = if b then ["triage"] else [])
         (create_requests (trace (sync_loop fork upstream_issues w))).
Proof.
  revert w; induction upstream_issues as [| issue rest IH]; intros w Hlabels.
  - constructor.
  - assert (forall available,
              (In "triage" (map name available) <-> b = true) ->
              labels_to_apply (map name available) =
              if b then ["triage"] else []) as Hdecides.
    { intros available Hiff. rewrite labels_to_apply_spec.
      destruct (py_in "triage" (map name available)) eqn:Hin.
      - apply py_in_spec in Hin. apply Hiff in Hin. now subst b.
      - destruct b; trivial.
        assert (py_in "triage" (map name available) = true)
          by (apply py_in_spec, Hiff; reflexivity).
        congruence. }
    one_turn fork issue w.
    + constructor.
    + now apply IH.
    + constructor.
    + constructor; [| constructor].
      apply Hdecides. now apply Forall_inv in Hlabels.
    + constructor.
      * apply Hdecides. now apply Forall_inv in Hlabels.
      * apply IH. now apply Forall_inv_tail in Hlabels.
Qed.

(** C1.  In a run where every tagged issue the fork ever lists has a
    title that begins with ["[Upstream] "] and no source title begins
    with it, the duplicate check finds no match for any source issue
    against any listing.  So no source issue is skipped: the creation
    requests are, in order, those of the source issues, each with the
    labels read in its turn (up to the point where an exception ends the
    run), and a run that reaches its end has sent one for every source
    issue. *)
Theorem prefixed_fork_titles_never_match upstream_issues w :
  Forall (Forall (fun i => String.prefix marker (title i) = true))
         (issue_reads (trace (sync_loop fork upstream_issues w))) ->
  Forall (fun s => String.prefix marker (title s) = false) upstream_issues ->
  (forall existing s,
      In existing (issue_reads (trace (sync_loop fork upstream_issues w))) ->
      In s upstream_issues ->
      already_synced existing s = false)
  /\ create_requests (trace (sync_loop fork upstream_issues w)) =
     map (fun p => request_for fork (snd p) (fst p))
         (combine upstream_issues
                  (label_reads (trace (sync_loop fork upstream_issues w))))
  /\ (result (sync_loop fork upstream_issues w) = inr tt ->
      map req_title (create_requests (trace (sync_loop fork upstream_issues w)))
      = map (fun s => marker ++ title s) upstream_issues).
Proof.
  intros Hfork Hsrc. split.
  { intros existing s Hexisting Hs. rewrite Forall_forall in Hfork, Hsrc.
    apply prefixed_titles_differ; auto. }
  revert w Hfork; induction Hsrc as [| issue rest Hissue Hrest IH];
    intros w Hfork.
  - split; reflexivity.
  - one_turn fork issue w.
    + split; [reflexivity | discriminate].
    + apply Forall_inv in Hfork.
      pose proof (prefixed_titles_differ _ _ Hfork Hissue). congruence.
    + split; [reflexivity | discriminate].
    + split; [| discriminate]. cbn [combine map fst snd].
      now rewrite combine_nil.
    + destruct (IH w3 (Forall_inv_tail Hfork)) as [Hreq Hdone].
      split.
      * cbn [combine map fst snd]. now rewrite <- Hreq.
      * intro Hend. cbn [map req_title]. now rewrite (Hdone Hend).
Qed.

(** C7.  The first scenario of the specification: two source issues
    titled ["Bug A"] and ["Bug B"], a fork that lists no tagged issue, and
    the labels ["triage"] and ["bug"].  The run sends two creation
    requests, in that order, titled ["[Upstream] Bug A"] and
    ["[Upstream] Bug B"], each with the labels [["triage"]]. *)
Theorem two_new_bugs_are_mirrored (a b : Issue) w :
  title a = "Bug A" ->
  title b = "Bug B" ->
  result (sync_loop fork [a; b] w) = inr tt ->
  Forall (fun existing => existing = [])
         (issue_reads (trace (sync_loop fork [a; b] w))) ->
  Forall (fun available => map name available = ["triage"; "bug"])
         (label_reads (trace (sync_loop fork [a; b] w))) ->
  map (fun request => (req_title request, req_labels request))
      (create_requests (trace (sync_loop fork [a; b] w)))
  = [ ("[Upstream] Bug A", ["triage"]); ("[Upstream] Bug B", ["triage"]) ].
Proof.
  intros Ha Hb Hend Hfork Hlabels.
  one_turn fork a w; try discriminate.
  { apply Forall_inv in Hfork. subst. discriminate. }
  apply Forall_inv in Hlabels as Hhere.
  apply Forall_inv_tail in Hlabels. apply Forall_inv_tail in Hfork.
  cbn [map req_title req_labels]. unfold new_title at 1.
  rewrite Ha, labels_to_apply_spec, Hhere. cbn [py_in existsb String.eqb].
  clear Hhere.
  one_turn fork b w3; try discriminate.
  { apply Forall_inv in Hfork. subst. discriminate. }
  apply Forall_inv in Hlabels as Hhere.
  cbn [map req_title req_labels]. unfold new_title.
  rewrite Hb, labels_to_apply_spec, Hhere. reflexivity.
Qed.

(** In a run that reaches its end, a source issue that no listing of the
    run matches gets its two listings and its creation call, answered. *)
Lemma unmatched_issue_in_completed_run l1 issue l2 w :
  result (sync_loop fork (l1 ++ issue :: l2) w) = inr tt ->
  Forall (Forall (fun i => title i <> title issue))
         (issue_reads (trace (sync_loop fork (l1 ++ issue :: l2) w))) ->
  exists tr1 existing available new w3,
    trace (sync_loop fork (l1 ++ issue :: l2) w) =
      (tr1 ++ [tagged_read fork (inr existing);
               EvGetLabels fork (inr available);
               creation fork issue available (inr new)]
           ++ trace (sync_loop fork l2 w3))%list
    /\ result (sync_loop fork l2 w3) = inr tt.
Proof.
  rewrite sync_loop_app.
  destruct (sync_loop fork l1 w) as [tr1 [e | []] w1];
    cbn [trace result world]; [discriminate |].
  unfold prepend at 1 2. cbn [trace result world]. intros Hend Hreads.
  rewrite issue_reads_app in Hreads. apply Forall_app in Hreads as [_ Hreads].
  exists tr1.
  one_turn fork issue w1; try discriminate.
  - apply Forall_inv in Hreads.
    match goal with
    | Hs : already_synced _ _ = true |- _ =>
        apply already_synced_true in Hs as [i [Hi Heq]]
    end.
    rewrite Forall_forall in Hreads. now destruct (Hreads i Hi).
  - exists existing, available, new, w3. split; [reflexivity | assumption].
Qed.

(** C10.  Two source issues with the same title, in a run that reaches
    its end and in which no listing of tagged issues holds that raw
    title: two creation requests are sent, one for each, with the same
    prefixed title. *)
Theorem same_title_is_mirrored_twice l1 (a : Issue) l2 (b : Issue) l3 w :
  title a = title b ->
  result (sync_loop fork (l1 ++ a :: l2 ++ b :: l3) w) = inr tt ->
  Forall (Forall (fun i => title i <> title a))
         (issue_reads (trace (sync_loop fork (l1 ++ a :: l2 ++ b :: l3) w))) ->
  exists before first between second after,
    create_requests (trace (sync_loop fork (l1 ++ a :: l2 ++ b :: l3) w)) =
      (before ++ first :: between ++ second :: after)%list
    /\ req_title first = LABEL_PREFIX ++ " " ++ title a
    /\ req_title second = LABEL_PREFIX ++ " " ++ title a.
Proof.
  intros Hsame Hend Hreads.
  destruct (unmatched_issue_in_completed_run _ _ _ _ Hend Hreads)
    as (tr1 & ex1 & av1 & new1 & w3 & Htrace & Hend').
  rewrite Htrace in Hreads |- *.
  rewrite !issue_reads_app in Hreads.
  apply Forall_app in Hreads as [_ Hreads].
  apply Forall_app in Hreads as [_ Hreads].
  rewrite Hsame in Hreads.
  destruct (unmatched_issue_in_completed_run _ _ _ _ Hend' Hreads)
    as (tr2 & ex2 & av2 & new2 & w4 & Htrace' & _).
  rewrite Htrace', !create_requests_app.
  unfold tagged_read, creation.
  cbn [create_requests flat_map app].
  do 5 eexists. split; [reflexivity |].
  cbn [req_title]. unfold new_title. rewrite Hsame. split; reflexivity.
Qed.

(** C5, as the code has it.  In a run that reaches its end, the tagged
    issues of the fork are listed once per source issue, and the labels
    of the fork once per source issue that the duplicate check did not
    match, that is once per creation request. *)
Theorem reads_are_repeated_per_turn upstream_issues w :
  result (sync_loop fork upstream_issues w) = inr tt ->
  get_issues_calls (trace (sync_loop fork upstream_issues w))
    = length upstream_issues
  /\ length (issue_reads (trace (sync_loop fork upstream_issues w)))
    = length upstream_issues
  /\ get_labels_calls (trace (sync_loop fork upstream_issues w))
    = length (unmatched upstream_issues
                (issue_reads (trace (sync_loop fork upstream_issues w))))
  /\ get_labels_calls (trace (sync_loop fork upstream_issues w))
    = length (create_requests (trace (sync_loop fork upstream_issues w))).
Proof.
  revert w; induction upstream_issues as [| issue rest IH]; intros w Hend.
  - repeat split; reflexivity.
  - one_turn fork issue w; try discriminate.
    + destruct (IH w1 Hend) as (Hlist & Hreads & Hlabels & Hreq).
      unfold unmatched. cbn [combine filter fst snd].
      match goal with Hs : already_synced _ _ = _ |- _ => rewrite Hs end.
      cbn [negb]. fold (unmatched rest (issue_reads (trace (sync_loop fork rest w1)))).
      repeat split; congruence.
    + destruct (IH w3 Hend) as (Hlist & Hreads & Hlabels & Hreq).
      unfold unmatched. cbn [combine filter fst snd].
      match goal with Hs : already_synced _ _ = _ |- _ => rewrite Hs end.
      cbn [negb map length].
      fold (unmatched rest (issue_reads (trace (sync_loop fork rest w3)))).
      repeat split; congruence.
Qed.

End WholeRuns.

(** ** Exceptions *)

Section Faults.
Context {W : Type} {api : GitHub W}.

Lemma ret_stops {A} (a : A) (w : W) : stops_at_first_fault (ret a w).
Proof. constructor. Qed.

Lemma call_stops {A} (ev : exn + A -> Event) f (w : W) :
  (forall r, raised (ev r) = match r with inl e => Some e | inr _ => None end) ->
  stops_at_first_fault (call ev f w).
Proof.
  intro Hev. unfold call, stops_at_first_fault.
  destruct (f w) as [[e | a] w']; cbn [trace result world].
  - exists [], (ev (inl e)). repeat split; [constructor | apply Hev].
  - constructor; [apply Hev | constructor].
Qed.

Lemma bind_stops {A B} (m : M W A) (k : A -> M W B) :
  (forall w, stops_at_first_fault (m w)) ->
  (forall a w, stops_at_first_fault (k a w)) ->
  forall w, stops_at_first_fault (bind m k w).
Proof.
  intros Hm Hk w. unfold bind. specialize (Hm w).
  unfold stops_at_first_fault in *.
  destruct (m w) as [tr [e | a] w']; cbn [trace result world] in *.
  - exact Hm.
  - specialize (Hk a w').
    destruct (k a w') as [tr' [e | b] w'']; cbn [trace result world] in *.
    + destruct Hk as (pre & ev & Htr & Hquiet & Hev).
      exists (tr ++ pre)%list, ev. subst tr'.
      repeat split; [apply app_assoc | now apply Forall_app | exact Hev].
    + now apply Forall_app.
Qed.

Lemma for_stops {A} (xs : list A) (body : A -> M W unit) :
  (forall x w, stops_at_first_fault (body x w)) ->
  forall w, stops_at_first_fault (for_ xs body w).
Proof.
  intro Hbody. induction xs as [| x rest IH]; intro w.
  - apply ret_stops.
  - cbn [for_]. apply bind_stops; auto.
Qed.

Lemma loop_body_stops fork issue (w : W) :
  stops_at_first_fault (loop_body fork issue w).
Proof.
  unfold loop_body. revert w. apply bind_stops.
  - intro w. apply call_stops. now intros [? | ?].
  - intros existing. destruct (already_synced existing issue).
    + apply ret_stops.
    + apply bind_stops.
      * intro w. apply call_stops. now intros [? | ?].
      * intros available. apply bind_stops.
        -- intro w. apply call_stops. now intros [? | ?].
        -- intros new w. apply ret_stops.
Qed.

Lemma sync_issues_stops (w : W) : stops_at_first_fault (sync_issues w).
Proof.
  unfold sync_issues. revert w.
  repeat (apply bind_stops;
          [ intro w; apply call_stops; now intros [? | ?] | intro ]).
  apply bind_stops.
  - apply for_stops. intros issue w. apply loop_body_stops.
  - intros _ w. apply call_stops. now intros [? | ?].
Qed.

Lemma quiet_before_the_fault (pre pre' post : list Event) ev ev' e :
  (pre ++ ev :: post = pre' ++ [ev'])%list ->
  quiet pre' ->
  raised ev = Some e ->
  post = [] /\ ev = ev' /\ pre = pre'.
Proof.
  revert pre'; induction pre as [| x pre IH]; intros [| y pre'] Heq Hquiet Hev;
    cbn in Heq; inversion Heq; subst.
  - auto.
  - apply Forall_inv in Hquiet. congruence.
  - now destruct pre.
  - apply Forall_inv_tail in Hquiet.
    destruct (IH pre' H1 Hquiet Hev) as (Hpost & Hsame & Hpre).
    now subst.
Qed.

(** C6.  Nothing in the script catches an exception.  When a call of the
    run (getting a repository, a listing of issues or of labels, a
    creation, the final print) is answered with an exception, that call
    is the last of the run: no call was answered with an exception
    before it, nothing is called after it, so no later creation request
    is sent, and the run ends with that very exception. *)
Theorem first_exception_ends_the_run (w : W) pre ev post e :
  trace (sync_issues w) = (pre ++ ev :: post)%list ->
  raised ev = Some e ->
  quiet pre
  /\ post = []
  /\ create_requests post = []
  /\ result (sync_issues w) = inl e.
Proof.
  intros Htrace Hev.
  pose proof (sync_issues_stops w) as Hstops.
  unfold stops_at_first_fault in Hstops.
  destruct (result (sync_issues w)) as [e' | []].
  - destruct Hstops as (pre' & ev' & Htrace' & Hquiet & Hev').
    rewrite Htrace in Htrace'.
    destruct (quiet_before_the_fault _ _ _ _ _ _ Htrace' Hquiet Hev)
      as (Hpost & Hsame & Hpre).
    subst. repeat split; trivial. congruence.
  - unfold quiet in Hstops. rewrite Htrace in Hstops.
    apply Forall_app in Hstops as [_ Hstops].
    apply Forall_inv in Hstops. congruence.
Qed.

End Faults.

(** The scenario of the specification: ["Bug A"] upstream, a tagged
    ["Bug A"] in the fork, no creation request. *)
Lemma already_synced_issue_is_skipped_witness :
  create_requests
    (trace (sync_loop InMemory.the_fork [Scenario.bug_a]
              (InMemory.github [Scenario.bug_a] [Scenario.raw_bug_a]
                               Scenario.triage_and_bug 10))) = [].
Proof.
  exact (proj2 (already_synced_issue_is_skipped
    InMemory.the_fork [] [] Scenario.bug_a
    (InMemory.github [Scenario.bug_a] [Scenario.raw_bug_a] Scenario.triage_and_bug 10)
    (InMemory.github [Scenario.bug_a] [Scenario.raw_bug_a] Scenario.triage_and_bug 10)
    [] eq_refl
    [Scenario.raw_bug_a]
    (InMemory.github [Scenario.bug_a] [Scenario.raw_bug_a] Scenario.triage_and_bug 9)
    eq_refl
    (ex_intro _ Scenario.raw_bug_a (conj (or_introl eq_refl) eq_refl)))).
Defined.

(** ["Bug A"] upstream, nothing tagged in the fork: one request, with the
    prefixed title and the back link. *)
Lemma unmatched_issue_is_created_once_witness :
  create_requests
    (trace (sync_loop InMemory.the_fork [Scenario.bug_a]
              (InMemory.github [Scenario.bug_a] [] Scenario.triage_and_bug 10)))
  = [ {| req_repo := InMemory.the_fork;
         req_title := "[Upstream] Bug A";
         req_body :=
           "**Original Issue:** https://github.com/ssc-spc-ccoe-cei/azure-guardrails-solution-accelerator/issues"
             ++ newline ++ newline ++ "It crashes.";
         req_labels := ["triage"] |} ].
Proof.
  edestruct (unmatched_issue_is_created_once
               InMemory.the_fork [] [] Scenario.bug_a
               (InMemory.github [Scenario.bug_a] [] Scenario.triage_and_bug 10)
               _ [] eq_refl) as [_ Hrequests].
  - reflexivity.
  - intros i [].
  - reflexivity.
  - reflexivity.
  - exact Hrequests.
Defined.

(** An upstream issue without description. *)
Lemma missing_body_is_written_as_None_witness :
  exists request later,
    create_requests
      (trace (sync_loop InMemory.the_fork [Scenario.no_description]
                (InMemory.github [Scenario.no_description] []
                                 Scenario.only_bug 10)))
    = ([] ++ request :: later)%list
    /\ req_title request = "[Upstream] Bug C"
    /\ req_body request =
         "**Original Issue:** https://github.com/ssc-spc-ccoe-cei/azure-guardrails-solution-accelerator/issues"
           ++ newline ++ newline ++ "None".
Proof.
  eapply (missing_body_is_written_as_None
            InMemory.the_fork [] [] Scenario.no_description
            (InMemory.github [Scenario.no_description] [] Scenario.only_bug 10)
            _ [] eq_refl).
  - reflexivity.
  - intros i [].
  - reflexivity.
  - reflexivity.
Defined.

(** A closed tagged ["Bug A"] in the fork is listed and stops the
    mirroring of the open upstream ["Bug A"]. *)
Lemma closed_tagged_issue_suppresses_creation_witness :
  create_requests
    (trace (sync_loop InMemory.the_fork [Scenario.bug_a]
              (InMemory.github [Scenario.bug_a] [Scenario.closed_bug_a]
                               Scenario.triage_and_bug 10))) = [].
Proof.
  edestruct (closed_tagged_issue_suppresses_creation
               InMemory.the_fork [] [] Scenario.bug_a
               (InMemory.github [Scenario.bug_a] [Scenario.closed_bug_a]
                                Scenario.triage_and_bug 10)
               _ [] eq_refl) as [_ [Hrequests _]].
  - reflexivity.
  - left; reflexivity.
  - reflexivity.
  - reflexivity.
  - exact Hrequests.
Defined.

(** A fork that already holds the mirrored ["[Upstream] Bug A"]: both
    source issues are mirrored, ["Bug A"] a second time. *)
Lemma prefixed_fork_titles_never_match_witness :
  map req_title
      (create_requests
         (trace (sync_loop InMemory.the_fork [Scenario.bug_a; Scenario.bug_b]
                   (InMemory.github [Scenario.bug_a; Scenario.bug_b]
                      [Scenario.mirrored_bug_a] Scenario.triage_and_bug 20))))
  = ["[Upstream] Bug A"; "[Upstream] Bug B"].
Proof.
  apply (prefixed_fork_titles_never_match
           InMemory.the_fork [Scenario.bug_a; Scenario.bug_b]
           (InMemory.github [Scenario.bug_a; Scenario.bug_b]
              [Scenario.mirrored_bug_a] Scenario.triage_and_bug 20)).
  - vm_compute. repeat constructor.
  - vm_compute. repeat constructor.
  - reflexivity.
Defined.

(** With ["triage"] among the labels of the fork, and without it. *)
Lemma triage_label_follows_the_label_set_witness :
  Forall (fun request => req_labels request = ["triage"])
    (create_requests
       (trace (sync_loop InMemory.the_fork [Scenario.bug_a; Scenario.bug_b]
                 (InMemory.github [Scenario.bug_a; Scenario.bug_b] []
                    Scenario.triage_and_bug 20))))
  /\ Forall (fun request => req_labels request = [])
    (create_requests
       (trace (sync_loop InMemory.the_fork [Scenario.bug_a; Scenario.bug_b]
                 (InMemory.github [Scenario.bug_a; Scenario.bug_b] []
                    Scenario.only_bug 20)))).
Proof.
  split.
  - apply (triage_label_follows_the_label_set
             InMemory.the_fork [Scenario.bug_a; Scenario.bug_b]
             (InMemory.github [Scenario.bug_a; Scenario.bug_b] []
                Scenario.triage_and_bug 20) true).
    vm_compute. repeat constructor; auto.
  - apply (triage_label_follows_the_label_set
             InMemory.the_fork [Scenario.bug_a; Scenario.bug_b]
             (InMemory.github [Scenario.bug_a; Scenario.bug_b] []
                Scenario.only_bug 20) false).
    vm_compute. repeat constructor; try discriminate.
    all: intros [Hbug | []]; discriminate.
Defined.

(** C5, as the specification words it, fails on its own second scenario:
    ["Bug A"] upstream and a tagged ["Bug A"] in the fork.  The issue is
    skipped before the labels are asked for, so the run lists the labels
    zero times for one source issue. *)
Lemma label_listing_is_skipped_with_the_issue :
  ~ reads_once_per_source_issue InMemory.the_fork [Scenario.bug_a]
      (InMemory.github [Scenario.bug_a] [Scenario.raw_bug_a]
                       Scenario.triage_and_bug 10).
Proof.
  intro Hclaim. destruct (Hclaim eq_refl) as [_ Hlabels].
  vm_compute in Hlabels. discriminate.
Qed.

(** Two source issues, the first already in the fork: two listings of
    issues, one listing of labels. *)
Lemma reads_are_repeated_per_turn_witness :
  get_issues_calls
    (trace (sync_loop InMemory.the_fork [Scenario.bug_a; Scenario.bug_b]
              (InMemory.github [Scenario.bug_a; Scenario.bug_b]
                 [Scenario.raw_bug_a] Scenario.triage_and_bug 20))) = 2
  /\ get_labels_calls
    (trace (sync_loop InMemory.the_fork [Scenario.bug_a; Scenario.bug_b]
              (InMemory.github [Scenario.bug_a; Scenario.bug_b]
                 [Scenario.raw_bug_a] Scenario.triage_and_bug 20))) = 1.
Proof.
  edestruct (reads_are_repeated_per_turn
               InMemory.the_fork [Scenario.bug_a; Scenario.bug_b]
               (InMemory.github [Scenario.bug_a; Scenario.bug_b]
                  [Scenario.raw_bug_a] Scenario.triage_and_bug 20))
    as (Hissues & _ & _ & Hlabels).
  - vm_compute. reflexivity.
  - split; [exact Hissues | exact Hlabels].
Defined.

(** A rate limit of six calls: the two repositories, the upstream
    listing, and the three calls that mirror ["Bug A"].  The listing for
    ["Bug B"] raises, and the script ends there with that exception. *)
Lemma first_exception_ends_the_run_witness :
  result (sync_issues
            (InMemory.github [Scenario.bug_a; Scenario.bug_b] []
                             Scenario.triage_and_bug 6))
  = inl RateLimitExceededException.
Proof.
  apply (first_exception_ends_the_run
           (InMemory.github [Scenario.bug_a; Scenario.bug_b] []
                            Scenario.triage_and_bug 6)
           (removelast
              (trace (sync_issues
                        (InMemory.github [Scenario.bug_a; Scenario.bug_b] []
                                         Scenario.triage_and_bug 6))))
           (EvGetIssues InMemory.the_fork "all" (Some [LABEL_PREFIX])
                        (inl RateLimitExceededException))
           []).
  - vm_compute. reflexivity.
  - reflexivity.
Defined.

(** The scenario, run on the in-memory fork. *)
Lemma two_new_bugs_are_mirrored_witness :
  map (fun request => (req_title request, req_labels request))
      (create_requests
         (trace (sync_loop InMemory.the_fork [Scenario.bug_a; Scenario.bug_b]
                   (InMemory.github [Scenario.bug_a; Scenario.bug_b] []
                      Scenario.triage_and_bug 20))))
  = [ ("[Upstream] Bug A", ["triage"]); ("[Upstream] Bug B", ["triage"]) ].
Proof.
  apply (two_new_bugs_are_mirrored
           InMemory.the_fork Scenario.bug_a Scenario.bug_b
           (InMemory.github [Scenario.bug_a; Scenario.bug_b] []
              Scenario.triage_and_bug 20)).
  - reflexivity.
  - reflexivity.
  - reflexivity.
  - vm_compute. repeat constructor.
  - vm_compute. repeat constructor.
Defined.

(** ["Bug A"] reported twice upstream, with ["Bug B"] in between. *)
Lemma same_title_is_mirrored_twice_witness :
  exists before first between second after,
    create_requests
      (trace (sync_loop InMemory.the_fork
                ([] ++ Scenario.bug_a
                    :: [Scenario.bug_b] ++ Scenario.bug_a_again :: [])
                (InMemory.github
                   [Scenario.bug_a; Scenario.bug_b; Scenario.bug_a_again] []
                   Scenario.only_bug 20)))
    = (before ++ first :: between ++ second :: after)%list
    /\ req_title first = "[Upstream] Bug A"
    /\ req_title second = "[Upstream] Bug A".
Proof.
  apply (same_title_is_mirrored_twice
           InMemory.the_fork [] Scenario.bug_a [Scenario.bug_b]
           Scenario.bug_a_again []
           (InMemory.github
              [Scenario.bug_a; Scenario.bug_b; Scenario.bug_a_again] []
              Scenario.only_bug 20)).
  - reflexivity.
  - reflexivity.
  - vm_compute. repeat constructor.
Defined.

(** ** The script, run from top to bottom *)

(** A run that reaches its end prints the confirmation line. *)
Example a_complete_run_prints_one_line :
  let o := sync_issues
             (InMemory.github [Scenario.bug_a; Scenario.bug_b] []
                              Scenario.triage_and_bug 20) in
  result o = inr tt
  /\ InMemory.stdout (world o) = ["Issues synced successfully."]
  /\ map req_title (create_requests (trace o))
     = ["[Upstream] Bug A"; "[Upstream] Bug B"].
Proof. vm_compute. repeat split. Qed.

(** Running the script again on the world the first run left mirrors the
    same upstream issue once more: the first copy carries the label
    ["triage"], not the marker label, and its title carries the prefix. *)
Example a_second_run_mirrors_again :
  let first := sync_issues
                 (InMemory.github [Scenario.bug_a] [] Scenario.triage_and_bug 20) in
  let second := sync_issues (world first) in
  result second = inr tt
  /\ map req_title (create_requests (trace second)) = ["[Upstream] Bug A"]
  /\ option_map (fun r => map title (InMemory.repo_issues r))
       (InMemory.lookup FORK_REPO (InMemory.repos (world second)))
     = Some ["[Upstream] Bug A"; "[Upstream] Bug A"].
Proof. vm_compute. repeat split. Qed.

(** * Further properties *)

(** ** More on the loop *)


Lemma requests_on_repo (repo : Repository) (tr : list Event) :
  Forall (on_repo repo) tr ->
  Forall (fun request => req_repo request = repo) (create_requests tr).
Proof.
  induction 1 as [| ev tr Hev _ IH]; [constructor |].
  destruct ev; cbn in *; auto.
Qed.

Section MoreOnTheLoop.
Context {W : Type} {api : GitHub W}.
Variable fork : Repository.
Implicit Types (w : W) (issue : Issue) (upstream_issues : list Issue).

Lemma sync_loop_on_fork upstream_issues w :
  Forall (on_repo fork) (trace (sync_loop fork upstream_issues w)).
Proof.
  revert w; induction upstream_issues as [| issue rest IH]; intro w.
  - constructor.
  - rewrite sync_loop_cons.
    destruct (loop_body_cases fork issue w); cbn [trace result world prepend];
      repeat (apply Forall_cons; [reflexivity |]);
      try constructor; apply IH.
Qed.

(** Every request of a run is the request of one of the source issues,
    for some label list. *)
Lemma requests_come_from_sources upstream_issues w :
  Forall (fun request =>
            exists issue available,
              In issue upstream_issues
              /\ request = request_for fork available issue)
         (create_requests (trace (sync_loop fork upstream_issues w))).
Proof.
  revert w; induction upstream_issues as [| issue rest IH]; intro w.
  - constructor.
  - assert (forall w',
              Forall (fun request =>
                        exists s available,
                          In s (issue :: rest)
                          /\ request = request_for fork available s)
                     (create_requests (trace (sync_loop fork rest w'))))
      as IH'.
    { intro w'. eapply Forall_impl; [| apply IH].
      intros request (s & available & Hs & Hreq).
      exists s, available. split; [now right | assumption]. }
    one_turn fork issue w; try constructor; try apply IH'; try constructor;
      exists issue, available; (split; [now left | reflexivity]).
Qed.



(** X5.  Every title the loop asks the fork to create begins with the
    marker ["[Upstream] "], whatever the source title is. *)
Theorem created_titles_carry_the_marker upstream_issues w :
  Forall (fun request => String.prefix marker (req_title request) = true)
         (create_requests (trace (sync_loop fork upstream_issues w))).
Proof.
  eapply Forall_impl; [| apply requests_come_from_sources].
  intros request (issue & available & _ & Hreq). subst request.
  cbn [request_for req_title]. unfold new_title, marker, LABEL_PREFIX.
  cbn. now destruct (title issue).
Qed.

(** X6.  The loop applies at most the label ["triage"]: the labels of a
    creation request are [[]] or [["triage"]], and never hold the marker
    label [LABEL_PREFIX] that the duplicate check filters the fork by. *)
Theorem the_marker_label_is_never_applied upstream_issues w :
  Forall (fun request =>
            (req_labels request = [] \/ req_labels request = ["triage"])
            /\ ~ In LABEL_PREFIX (req_labels request))
         (create_requests (trace (sync_loop fork upstream_issues w))).
Proof.
  eapply Forall_impl; [| apply requests_come_from_sources].
  intros request (issue & available & _ & Hreq). subst request.
  cbn [request_for req_labels]. rewrite labels_to_apply_spec.
  destruct (py_in "triage" (map name available)).
  - split; [now right |]. intros [Hlabel | []]. discriminate.
  - split; [now left | intros []].
Qed.

(** X7.  When every listing of the run holds, for each source issue, a
    tagged issue with its raw title, the run creates nothing and never
    lists the labels of the fork. *)
Theorem nothing_to_mirror upstream_issues w :
  Forall (fun existing =>
            Forall (fun s => exists i, In i existing /\ title i = title s)
                   upstream_issues)
         (issue_reads (trace (sync_loop fork upstream_issues w))) ->
  create_requests (trace (sync_loop fork upstream_issues w)) = []
  /\ get_labels_calls (trace (sync_loop fork upstream_issues w)) = 0.
Proof.
  revert w; induction upstream_issues as [| issue rest IH]; intros w Hreads.
  - rewrite sync_loop_nil. cbn. auto.
  - assert (forall existing,
              Forall (fun s => exists i, In i existing /\ title i = title s)
                     (issue :: rest) ->
              already_synced existing issue = true) as Hhere.
    { intros existing Hall. apply already_synced_true.
      now apply Forall_inv in Hall. }
    one_turn fork issue w;
      try (apply Forall_inv in Hreads; apply Hhere in Hreads; congruence).
    + split; reflexivity.
    + apply IH.
      apply Forall_inv_tail in Hreads.
      eapply Forall_impl; [| exact Hreads].
      intros existing' Hall. now apply Forall_inv_tail in Hall.
Qed.

End MoreOnTheLoop.

(** ** Titles *)

(** X8.  An issue whose title is the mirrored title of [issue] never
    passes for [issue] in the duplicate check: a list of such copies
    matches nothing, whatever the source title is. *)
Theorem a_mirror_copy_does_not_match_its_source existing issue :
  Forall (fun i => title i = LABEL_PREFIX ++ " " ++ title issue) existing ->
  already_synced existing issue = false.
Proof.
  intro Hcopies. apply already_synced_false. intros i Hi Heq.
  rewrite Forall_forall in Hcopies. specialize (Hcopies i Hi).
  rewrite Heq in Hcopies. apply (f_equal String.length) in Hcopies.
  unfold LABEL_PREFIX in Hcopies. cbn in Hcopies. lia.
Qed.

(** X9.  Two source issues get the same mirrored title exactly when they
    have the same title upstream. *)
Theorem mirrored_titles_collide_only_with_equal_titles (a b : Issue) :
  new_title a = new_title b <-> title a = title b.
Proof.
  unfold new_title, LABEL_PREFIX. split.
  - intro Heq. cbn in Heq. now inversion Heq.
  - intro Heq. now rewrite Heq.
Qed.


(** ** The script as a whole *)

Section WholeScript.
Context {W : Type} {api : GitHub W}.

Lemma sync_issues_cases (w : W) : script_run w (sync_issues w).
Proof.
  unfold sync_issues, bind, get_repo, get_issues, print, call.
  destruct (gh_get_repo UPSTREAM_REPO w) as [[e | upstream] w1] eqn:Hup;
    cbn [trace result world]; [now apply upstream_repo_raises |].
  destruct (gh_get_repo FORK_REPO w1) as [[e | fork] w2] eqn:Hfork;
    cbn [trace result world]; [now apply fork_repo_raises with (w1 := w1) |].
  destruct (repo_get_issues upstream "open" None w2)
    as [[e | upstream_issues] w3] eqn:Hlist; cbn [trace result world].
  { now apply upstream_listing_raises with (w1 := w1) (w2 := w2). }
  destruct (result (sync_loop fork upstream_issues w3)) as [e | []] eqn:Hloop.
  - now apply (loop_raises w upstream w1 fork w2 upstream_issues w3 e).
  - destruct (sys_print "Issues synced successfully."
                (world (sync_loop fork upstream_issues w3)))
      as [r w4] eqn:Hprint; cbn [trace result world].
    now apply (loop_returns w upstream w1 fork w2 upstream_issues w3 r w4).
Qed.

Lemma sync_loop_stops fork upstream_issues (w : W) :
  stops_at_first_fault (sync_loop fork upstream_issues w).
Proof.
  apply for_stops. intros issue w'. apply loop_body_stops.
Qed.

Lemma sync_loop_quiet fork upstream_issues (w : W) :
  result (sync_loop fork upstream_issues w) = inr tt ->
  quiet (trace (sync_loop fork upstream_issues w)).
Proof.
  intro Hend. pose proof (sync_loop_stops fork upstream_issues w) as Hstops.
  unfold stops_at_first_fault in Hstops. now rewrite Hend in Hstops.
Qed.

Lemma sync_loop_print_free fork upstream_issues (w : W) :
  Forall (fun ev => ~ is_print ev) (trace (sync_loop fork upstream_issues w)).
Proof.
  eapply Forall_impl; [| apply sync_loop_on_fork].
  intros [] Hon; cbn in *; tauto.
Qed.

Lemma preamble_quiet upstream fork upstream_issues :
  quiet (preamble upstream fork upstream_issues).
Proof. repeat constructor. Qed.

Lemma preamble_print_free upstream fork upstream_issues :
  Forall (fun ev => ~ is_print ev) (preamble upstream fork upstream_issues).
Proof. repeat constructor; cbn; tauto. Qed.

(** The last element of a list is the only one with a property that no
    element before it has. *)
Lemma last_is_unique (P : Event -> Prop) l x pre y post :
  (l ++ [x] = pre ++ y :: post)%list ->
  Forall (fun ev => ~ P ev) l ->
  P y ->
  post = [] /\ x = y /\ pre = l.
Proof.
  revert pre; induction l as [| a l IH]; intros [| b pre] Heq Hfree Hy;
    cbn in Heq; inversion Heq; subst.
  - auto.
  - now destruct pre.
  - apply Forall_inv in Hfree. contradiction.
  - apply Forall_inv_tail in Hfree.
    destruct (IH pre H1 Hfree Hy) as (Hpost & Hsame & Hpre). now subst.
Qed.

Lemma no_print_inside (tr pre post : list Event) line r :
  Forall (fun ev => ~ is_print ev) tr ->
  tr = (pre ++ EvPrint line r :: post)%list ->
  False.
Proof.
  intros Hfree Heq. subst tr. apply Forall_app in Hfree as [_ Hfree].
  apply Forall_inv in Hfree. now apply Hfree.
Qed.

(** X11.  With no open issue upstream the fork is asked nothing: the run
    is the two repositories, the upstream listing and the print, and it
    ends the way the print does. *)
Theorem nothing_upstream_nothing_asked_of_the_fork
    (w : W) upstream w1 fork w2 w3 :
  gh_get_repo UPSTREAM_REPO w = (inr upstream, w1) ->
  gh_get_repo FORK_REPO w1 = (inr fork, w2) ->
  repo_get_issues upstream "open" None w2 = (inr [], w3) ->
  sync_issues w =
    {| trace := [ EvGetRepo UPSTREAM_REPO (inr upstream);
                  EvGetRepo FORK_REPO (inr fork);
                  EvGetIssues upstream "open" None (inr []);
                  EvPrint "Issues synced successfully."
                    (fst (sys_print "Issues synced successfully." w3)) ];
       result := fst (sys_print "Issues synced successfully." w3);
       world := snd (sys_print "Issues synced successfully." w3) |}.
Proof.
  intros Hup Hfork Hlist.
  destruct (sync_issues_cases w); same_answers;
    rewrite sync_loop_nil in *; cbn [trace result world] in *;
    [discriminate |].
  match goal with Hpr : sys_print _ _ = _ |- _ =>
    unfold confirmation in Hpr; rewrite Hpr end.
  reflexivity.
Qed.

(** X12.  The script prints one thing only, the confirmation line, and
    only as its last call, after every other call was answered without an
    exception; the run ends the way that print does. *)
Theorem the_confirmation_is_printed_last (w : W) pre line r post :
  trace (sync_issues w) = (pre ++ EvPrint line r :: post)%list ->
  line = "Issues synced successfully."
  /\ post = []
  /\ quiet pre
  /\ result (sync_issues w) = r.
Proof.
  destruct (sync_issues_cases w); cbn [trace result]; intro Htrace.
  - exfalso. eapply no_print_inside; [| exact Htrace].
    repeat constructor; cbn; tauto.
  - exfalso. eapply no_print_inside; [| exact Htrace].
    repeat constructor; cbn; tauto.
  - exfalso. eapply no_print_inside; [| exact Htrace].
    repeat constructor; cbn; tauto.
  - exfalso. eapply no_print_inside; [| exact Htrace].
    apply Forall_app. split;
      [apply preamble_print_free | apply sync_loop_print_free].
  - rewrite app_assoc in Htrace.
    destruct (last_is_unique is_print _ _ _ _ _ Htrace)
      as (Hpost & Hsame & Hpre).
    + apply Forall_app. split;
        [apply preamble_print_free | apply sync_loop_print_free].
    + exact I.
    + inversion Hsame; subst. repeat split; trivial.
      apply Forall_app. split;
        [apply preamble_quiet | now apply sync_loop_quiet].
Qed.

(** X13.  A run of the script that returns has made no call that raised
    and has printed the confirmation line, once, as its last call. *)
Theorem a_run_that_returns_has_printed (w : W) :
  result (sync_issues w) = inr tt ->
  exists pre,
    trace (sync_issues w) =
      (pre ++ [EvPrint "Issues synced successfully." (inr tt)])%list
    /\ quiet pre
    /\ Forall (fun ev => ~ is_print ev) pre.
Proof.
  destruct (sync_issues_cases w); cbn [trace result]; intro Hend;
    try discriminate.
  subst r. eexists. rewrite app_assoc. split; [reflexivity |].
  split; apply Forall_app; split.
  - apply preamble_quiet.
  - now apply sync_loop_quiet.
  - apply preamble_print_free.
  - apply sync_loop_print_free.
Qed.

(** X15.  Whatever the script creates, it creates in the repository that
    [get_repo(FORK_REPO)] returned: every creation request of a run is
    addressed to the answer of that call. *)
Theorem issues_are_created_in_the_fork (w : W) request :
  In request (create_requests (trace (sync_issues w))) ->
  In (EvGetRepo FORK_REPO (inr (req_repo request))) (trace (sync_issues w)).
Proof.
  destruct (sync_issues_cases w); cbn [trace]; intro Hin;
    try (now cbn in Hin).
  - unfold preamble in *. rewrite create_requests_app in Hin. cbn in Hin.
    pose proof (requests_on_repo _ _
                  (sync_loop_on_fork fork upstream_issues w3)) as Hfork.
    rewrite Forall_forall in Hfork. rewrite (Hfork _ Hin).
    right; left; reflexivity.
  - unfold preamble in *. rewrite !create_requests_app in Hin.
    cbn in Hin. rewrite app_nil_r in Hin.
    pose proof (requests_on_repo _ _
                  (sync_loop_on_fork fork upstream_issues w3)) as Hfork.
    rewrite Forall_forall in Hfork. rewrite (Hfork _ Hin).
    right; left; reflexivity.
Qed.

End WholeScript.

(** ** The further properties on concrete repositories *)

(** ["Bug A"] upstream and a tagged ["Bug A"] in the fork. *)
Lemma nothing_to_mirror_witness :
  create_requests
    (trace (sync_loop InMemory.the_fork [Scenario.bug_a]
              (InMemory.github [Scenario.bug_a] [Scenario.raw_bug_a]
                               Scenario.triage_and_bug 10))) = []
  /\ get_labels_calls
    (trace (sync_loop InMemory.the_fork [Scenario.bug_a]
              (InMemory.github [Scenario.bug_a] [Scenario.raw_bug_a]
                               Scenario.triage_and_bug 10))) = 0.
Proof.
  edestruct (nothing_to_mirror InMemory.the_fork [Scenario.bug_a]
               (InMemory.github [Scenario.bug_a] [Scenario.raw_bug_a]
                                Scenario.triage_and_bug 10))
    as (Hrequests & Hlabels).
  - vm_compute. constructor; [| constructor].
    constructor; [| constructor].
    exists Scenario.raw_bug_a. split; [left |]; reflexivity.
  - split; [exact Hrequests | exact Hlabels].
Defined.

(** The copy ["[Upstream] Bug A"] against the source ["Bug A"]. *)
Lemma a_mirror_copy_does_not_match_its_source_witness :
  already_synced [Scenario.mirrored_bug_a] Scenario.bug_a = false.
Proof.
  apply a_mirror_copy_does_not_match_its_source.
  constructor; [reflexivity | constructor].
Defined.

(** No open issue upstream. *)
Lemma nothing_upstream_nothing_asked_of_the_fork_witness :
  length (trace (sync_issues
                   (InMemory.github [] [Scenario.raw_bug_a]
                                    Scenario.triage_and_bug 20))) = 4
  /\ result (sync_issues
               (InMemory.github [] [Scenario.raw_bug_a]
                                Scenario.triage_and_bug 20)) = inr tt.
Proof.
  erewrite nothing_upstream_nothing_asked_of_the_fork.
  - split; reflexivity.
  - reflexivity.
  - reflexivity.
  - reflexivity.
Defined.

(** The print of a complete run. *)
Lemma the_confirmation_is_printed_last_witness :
  result (sync_issues
            (InMemory.github [Scenario.bug_a] [] Scenario.triage_and_bug 20))
  = inr tt.
Proof.
  apply (the_confirmation_is_printed_last
           (InMemory.github [Scenario.bug_a] [] Scenario.triage_and_bug 20)
           (removelast
              (trace (sync_issues
                        (InMemory.github [Scenario.bug_a] []
                                         Scenario.triage_and_bug 20))))
           "Issues synced successfully." (inr tt) []).
  vm_compute. reflexivity.
Defined.

Lemma a_run_that_returns_has_printed_witness :
  exists pre,
    trace (sync_issues
             (InMemory.github [Scenario.bug_a] [] Scenario.triage_and_bug 20))
    = (pre ++ [EvPrint "Issues synced successfully." (inr tt)])%list
    /\ quiet pre
    /\ Forall (fun ev => ~ is_print ev) pre.
Proof.
  apply a_run_that_returns_has_printed. vm_compute. reflexivity.
Defined.

(** The one creation of a run on ["Bug A"] goes to the fork. *)
Lemma issues_are_created_in_the_fork_witness :
  In (EvGetRepo FORK_REPO (inr InMemory.the_fork))
     (trace (sync_issues
               (InMemory.github [Scenario.bug_a] []
                                Scenario.triage_and_bug 20))).
Proof.
  apply (issues_are_created_in_the_fork
           (InMemory.github [Scenario.bug_a] [] Scenario.triage_and_bug 20)
           (request_for InMemory.the_fork Scenario.triage_and_bug
                        Scenario.bug_a)).
  vm_compute. left. reflexivity.
Defined.
